(** * Ravel: class reflection registry and the [@before] decorator

    A shallow embedding of [lib/core/reflect.js] (the [Meta] record, the
    registry operations installed on [Ravel.prototype]) and of the [@before]
    decorator, together with the properties the specification states about
    them.

    JavaScript objects used as maps are association lists that keep the
    own-property order of the language; mutation is explicit state passing
    over a heap of registry objects; exceptions are a result type. *)

From Stdlib Require Import ZArith NArith Ascii String List Permutation Lia Bool.
From Stdlib Require Import Sorted.
From stdpp Require Import base list.
Import ListNotations.
Local Open Scope string_scope.

(* ===================================================================== *)
(** ** JavaScript values and exceptions                                   *)
(* ===================================================================== *)

Module JS.

(** Object identities.  A class is a constructor function [Ctor c]; its
    [prototype] property holds the object [Proto c].  [Plain n] is any other
    object. *)
Inductive objref : Type :=
| Ctor (c : nat)
| Proto (c : nat)
| Plain (n : nat).

Inductive jsval : Type :=
| VUndefined
| VNull
| VBool (b : bool)
| VNumber (n : Z)
| VString (s : string)
| VObj (o : objref).

Definition objref_eqb (a b : objref) : bool :=
  match a, b with
  | Ctor x, Ctor y => Nat.eqb x y
  | Proto x, Proto y => Nat.eqb x y
  | Plain x, Plain y => Nat.eqb x y
  | _, _ => false
  end.

(** [a === b] on the values above (numbers are integers here). *)
Definition strict_eqb (a b : jsval) : bool :=
  match a, b with
  | VUndefined, VUndefined => true
  | VNull, VNull => true
  | VBool x, VBool y => Bool.eqb x y
  | VNumber x, VNumber y => Z.eqb x y
  | VString x, VString y => String.eqb x y
  | VObj x, VObj y => objref_eqb x y
  | _, _ => false
  end.

(** [typeof o] for an object. *)
Definition typeof_obj (o : objref) : string :=
  match o with
  | Ctor _ => "function"
  | Proto _ | Plain _ => "object"
  end.

(** [typeof v]. *)
Definition typeof (v : jsval) : string :=
  match v with
  | VUndefined => "undefined"
  | VNull => "object"
  | VBool _ => "boolean"
  | VNumber _ => "number"
  | VString _ => "string"
  | VObj o => typeof_obj o
  end.

(** [o.prototype]: only a constructor carries one; on any other object the
    property read yields [undefined]. *)
Definition get_prototype (o : objref) : jsval :=
  match o with
  | Ctor c => VObj (Proto c)
  | Proto _ | Plain _ => VUndefined
  end.

(** The errors that can be thrown: the two [ApplicationError] kinds used by
    the source, and the language's own [TypeError]. *)
Inductive exn : Type :=
| NotFound (message : string)
| IllegalValue (message : string)
| TypeError.

Inductive Result (A : Type) : Type :=
| Return (a : A)
| Throw (e : exn).
Arguments Return {A} a.
Arguments Throw {A} e.

(** *** Objects used as maps

    An object without a prototype chain: its own properties in creation
    order.  Assigning to an existing key keeps the key's position. *)
Definition jsobject (V : Type) : Type := list (string * V).

Definition empty_object {V : Type} : jsobject V := [].

(** [o[k]]; [None] stands for [undefined]. *)
Fixpoint get_prop {V : Type} (o : jsobject V) (k : string) : option V :=
  match o with
  | [] => None
  | (k', v) :: o' => if String.eqb k' k then Some v else get_prop o' k
  end.

(** [o[k] = v]. *)
Fixpoint set_prop {V : Type} (o : jsobject V) (k : string) (v : V) : jsobject V :=
  match o with
  | [] => [(k, v)]
  | (k', v') :: o' =>
      if String.eqb k' k then (k', v) :: o' else (k', v') :: set_prop o' k v
  end.

Definition is_digit (a : ascii) : bool :=
  let n := N_of_ascii a in (N.leb 48 n && N.leb n 57)%bool.

(** Value of a string of decimal digits, [None] if some character is not a
    digit. *)
Fixpoint digits_value (s : string) (acc : N) : option N :=
  match s with
  | EmptyString => Some acc
  | String a s' =>
      if is_digit a
      then digits_value s' (acc * 10 + (N_of_ascii a - 48))%N
      else None
  end.

(** A property key is an array index when it is the canonical decimal
    form of an integer below [2^32 - 1]. *)
Definition array_index (k : string) : option N :=
  match k with
  | EmptyString => None
  | String a s' =>
      if (Ascii.eqb a "0" && negb (String.eqb s' EmptyString))%bool then None
      else match digits_value k 0%N with
           | Some n => if (n <? 4294967295)%N then Some n else None
           | None => None
           end
  end.

Fixpoint insert_index (x : N * string) (l : list (N * string)) : list (N * string) :=
  match l with
  | [] => [x]
  | y :: l' => if (fst x <=? fst y)%N then x :: l else y :: insert_index x l'
  end.

Definition sort_indices (l : list (N * string)) : list (N * string) :=
  fold_right insert_index [] l.

Fixpoint index_keys (ks : list string) : list (N * string) :=
  match ks with
  | [] => []
  | k :: ks' =>
      match array_index k with
      | Some n => (n, k) :: index_keys ks'
      | None => index_keys ks'
      end
  end.

Fixpoint name_keys (ks : list string) : list string :=
  match ks with
  | [] => []
  | k :: ks' =>
      match array_index k with
      | Some _ => name_keys ks'
      | None => k :: name_keys ks'
      end
  end.

(** [Object.keys(o)]: array-index keys in ascending numeric order, then the
    other keys in creation order. *)
Definition Object_keys {V : Type} (o : jsobject V) : list string :=
  let ks := map fst o in
  map snd (sort_indices (index_keys ks)) ++ name_keys ks.

(** Whether a property key is an array index. *)
Definition is_array_index (k : string) : bool :=
  match array_index k with
  | Some _ => true
  | None => false
  end.

End JS.
Import JS.

(* ===================================================================== *)
(** ** The metadata store ([lib/util/meta.js])                            *)
(* ===================================================================== *)

Module Metadata.

(** Modelled from the spec: [lib/util/meta.js] is not part of the sources
    at hand.  Per target, class-level metadata is a mapping from namespace to
    a mapping from attachment key to value, and method-level metadata is the
    same below a method name. *)
Record TargetMeta (V : Type) : Type := mkTargetMeta {
  class_level : jsobject (jsobject V);
  method_level : jsobject (jsobject (jsobject V))
}.
Arguments mkTargetMeta {V} _ _.
Arguments class_level {V} _.
Arguments method_level {V} _.

(** Modelled from the spec: the store of [lib/util/meta.js], keyed by the
    identity of the target; entries are created on first write. *)
Definition Store (V : Type) : Type := list (jsval * TargetMeta V).

(** Modelled from the spec: a target without metadata has an empty
    structure. *)
Definition no_meta {V : Type} : TargetMeta V := mkTargetMeta [] [].

(** Modelled from the spec: the entry of a target in the store of
    [lib/util/meta.js], empty when nothing was ever attached. *)
Fixpoint lookup_target {V : Type} (s : Store V) (target : jsval) : TargetMeta V :=
  match s with
  | [] => no_meta
  | (t, tm) :: s' => if strict_eqb t target then tm else lookup_target s' target
  end.

(** Modelled from the spec: replaces the entry of a target in the store of
    [lib/util/meta.js], creating it when absent. *)
Fixpoint write_target {V : Type} (s : Store V) (target : jsval)
    (tm : TargetMeta V) : Store V :=
  match s with
  | [] => [(target, tm)]
  | (t, tm') :: s' =>
      if strict_eqb t target then (t, tm) :: s'
      else (t, tm') :: write_target s' target tm
  end.

(** Modelled from the spec: a write under (namespace, key) creates the
    intermediate mapping as needed and overwrites an earlier value
    ([lib/util/meta.js] is absent). *)
Definition put_in {V : Type} (o : jsobject (jsobject V)) (category key : string)
    (value : V) : jsobject (jsobject V) :=
  set_prop o category (set_prop (default [] (get_prop o category)) key value).

(** Modelled from the spec: [putClassMeta(classIdentity, namespace, key,
    value)] of the absent [lib/util/meta.js]; no error conditions. *)
Definition putClassMeta {V : Type} (target : jsval) (category key : string)
    (value : V) (s : Store V) : Store V :=
  let tm := lookup_target s target in
  write_target s target
    (mkTargetMeta (put_in (class_level tm) category key value) (method_level tm)).

(** Modelled from the spec: [putMethodMeta(classIdentity, methodName,
    namespace, key, value)] of the absent [lib/util/meta.js]. *)
Definition putMethodMeta {V : Type} (target : jsval) (method category key : string)
    (value : V) (s : Store V) : Store V :=
  let tm := lookup_target s target in
  let ml := method_level tm in
  write_target s target
    (mkTargetMeta (class_level tm)
       (set_prop ml method
          (put_in (default [] (get_prop ml method)) category key value))).

(** Modelled from the spec: [getMeta(classIdentity)] of the absent
    [lib/util/meta.js] returns the view holding both scopes, empty for a
    target without metadata; it never fails. *)
Definition getMeta {V : Type} (target : jsval) (s : Store V) : TargetMeta V :=
  lookup_target s target.

(** Modelled from the spec: the list a consumer (the route binder, absent
    from the sources) finds under a namespace and the attachment key
    ["middleware"]; nothing attached reads as the empty list. *)
Definition middleware_of (o : jsobject (jsobject (list jsval))) (category : string)
    : list jsval :=
  match get_prop o category with
  | Some entry => default [] (get_prop entry "middleware")
  | None => []
  end.

(** Modelled from the spec: the effective middleware list of a method, as
    the consuming route binder (absent from the sources) computes it:
    class-level entries, then the method's own. *)
Definition effective_middleware (view : TargetMeta (list jsval))
    (category method : string) : list jsval :=
  (middleware_of (class_level view) category
   ++ middleware_of (default [] (get_prop (method_level view) method)) category)%list.

End Metadata.
Import Metadata.

(* ===================================================================== *)
(** ** [lib/core/reflect.js]                                              *)
(* ===================================================================== *)

Module Reflect.

(** [class Meta]: [path], [class] and the symbol-keyed [sRegisteredAt]. *)
Record Meta : Type := mkMeta {
  path : string;
  class : objref;
  sRegisteredAt : Z
}.

(** [new Meta(path, klass)]; [now] is the value [Date.now()] returns during
    the call. *)
Definition new_Meta (path : string) (klass : objref) (now : Z) : Meta :=
  {| path := path; class := klass; sRegisteredAt := now |}.

(** [get registeredAt ()]. *)
Definition registeredAt (m : Meta) : Z := sRegisteredAt m.

(** [get metadata ()]: computed on each read from the current store. *)
Definition metadata {V : Type} (m : Meta) (s : Store V) : TargetMeta V :=
  getMeta (get_prototype (class m)) s.

(** The heap of registry objects, by address. *)
Abbreviation Heap := (list (jsobject Meta)).

(** A Ravel application instance: the slot [this[symbols.knownClasses]]
    holds the address of the instance's registry object.  The source never
    reassigns the slot; it only mutates the object behind it. *)
Record Ravel : Type := mkRavel {
  knownClasses_slot : nat
}.

(** Computations over the heap that may throw. *)
Definition M (A : Type) : Type := Heap -> Result A * Heap.

Definition ret {A : Type} (a : A) : M A := fun h => (Return a, h).

Definition throw {A : Type} (e : exn) : M A := fun h => (Throw e, h).

Definition bind {A B : Type} (c : M A) (f : A -> M B) : M B :=
  fun h =>
    match c h with
    | (Return a, h') => f a h'
    | (Throw e, h') => (Throw e, h')
    end.

Notation "'let*' x ':=' c 'in' k" := (bind c (fun x => k))
  (at level 10, x name, c at level 100, k at level 200).

(** Reads [this[symbols.knownClasses]]; using the result as an object
    throws when the slot holds none. *)
Definition load_knownClasses (this : Ravel) : M (jsobject Meta) :=
  fun h =>
    match h !! knownClasses_slot this with
    | Some o => (Return o, h)
    | None => (Throw TypeError, h)
    end.

(** Writes back the mutated object at the same address. *)
Definition store_knownClasses (this : Ravel) (o : jsobject Meta) : M unit :=
  fun h => (Return tt, <[knownClasses_slot this := o]> h).

(** Modelled from the spec: the constructor of [Ravel] (lib/ravel.js), which
    initialises [this[symbols.knownClasses]], is not part of the sources at
    hand.  The spec describes the registry as a mapping from path to record,
    owned by one application instance; a new instance gets a fresh, empty
    object with no inherited properties. *)
Definition new_Ravel : M Ravel :=
  fun h => (Return (mkRavel (List.length h)), (h ++ [empty_object])%list).

(** [Ravel.prototype[symbols.registerClassFunc] = function (path, klass)]. *)
Definition registerClassFunc (this : Ravel) (path : string) (klass : objref)
    (now : Z) : M unit :=
  let* o := load_knownClasses this in
  store_knownClasses this (set_prop o path (new_Meta path klass now)).

(** The error [reflect] throws:
    [new ApplicationError.NotFound(`Class at ${filePath} is not registered with Ravel.`)]. *)
Definition not_registered (filePath : string) : exn :=
  NotFound ("Class at " ++ filePath ++ " is not registered with Ravel.").

(** [Ravel.prototype.reflect = function (filePath)].  A [Meta] instance is
    an object, hence truthy: the test fails exactly when the property is
    absent. *)
Definition reflect (this : Ravel) (filePath : string) : M Meta :=
  let* o := load_knownClasses this in
  match get_prop o filePath with
  | None => throw (not_registered filePath)
  | Some m => ret m
  end.

(** [Ravel.prototype.knownClasses = function ()]. *)
Definition knownClasses (this : Ravel) : M (list string) :=
  let* o := load_knownClasses this in
  ret (Object_keys o).

Definition eval {A : Type} (c : M A) (h : Heap) : Result A := fst (c h).
Definition exec {A : Type} (c : M A) (h : Heap) : Heap := snd (c h).

(** The record of the latest registration of [p] in a history of
    registrations, most recent first. *)
Definition latest (hist : list Meta) (p : string) : option Meta :=
  find (fun m => String.eqb (path m) p) hist.

(** [reachable app h hist]: the heap [h] arises from the construction of
    [app] followed by any number of registrations on [app] (recorded in
    [hist], most recent first), registrations on other instances, and
    constructions of other instances. *)
Inductive reachable (app : Ravel) : Heap -> list Meta -> Prop :=
| reach_new h :
    eval new_Ravel h = Return app ->
    reachable app (exec new_Ravel h) []
| reach_register h hist p k now :
    reachable app h hist ->
    reachable app (exec (registerClassFunc app p k now) h)
      (new_Meta p k now :: hist)
| reach_register_other h hist other p k now :
    knownClasses_slot other <> knownClasses_slot app ->
    reachable app h hist ->
    reachable app (exec (registerClassFunc other p k now) h) hist
| reach_new_other h hist :
    reachable app h hist ->
    reachable app (exec new_Ravel h) hist.

(** The paths of a history of registrations in the order in which each
    was first registered (the history is most recent first). *)
Fixpoint registration_order (hist : list Meta) : list string :=
  match hist with
  | [] => []
  | m :: older =>
      let ks := registration_order older in
      if existsb (String.eqb (path m)) ks then ks else (ks ++ [path m])%list
  end.

End Reflect.
Import Reflect.

(* ===================================================================== *)
(** ** The [@before] decorator                                            *)
(* ===================================================================== *)

Module Before.

(** The calls the decorator makes on the [Metadata] module. *)
Inductive MetadataCall : Type :=
| PutClassMeta (target : jsval) (category key : string) (value : list jsval)
| PutMethodMeta (target : jsval) (method category key : string) (value : list jsval).

(** A computation that may throw, with the calls on [Metadata] it has made
    so far, in order. *)
Definition Eff (A : Type) : Type := list MetadataCall * Result A.

Definition pure {A : Type} (a : A) : Eff A := ([], Return a).

Definition raise {A : Type} (e : exn) : Eff A := ([], Throw e).

Definition call (c : MetadataCall) : Eff unit := ([c], Return tt).

Definition and_then {A B : Type} (c : Eff A) (f : A -> Eff B) : Eff B :=
  match c with
  | (log, Return a) => let (log', r) := f a in ((log ++ log')%list, r)
  | (log, Throw e) => (log, Throw e)
  end.

Notation "'do' x '<-' c ';' k" := (and_then c (fun x => k))
  (at level 10, x name, c at level 100, k at level 200).

(** The error of the validation loop. *)
Definition must_be_strings : exn :=
  IllegalValue "Values supplied to @before decorator must be strings.".

(** The loop [for (const r of rest) { if (typeof r !== 'string') throw ... }]. *)
Fixpoint check_strings (rest : list jsval) : Eff unit :=
  match rest with
  | [] => pure tt
  | r :: rest' =>
      if negb (String.eqb (typeof r) "string")
      then raise must_be_strings
      else check_strings rest'
  end.

(** [`${key}`] for a method key that is a string or [undefined]. *)
Definition key_to_string (key : option string) : string :=
  match key with
  | Some k => k
  | None => "undefined"
  end.

(** The function [before] returns: [function (target, key)]. *)
Definition configurator : Type := objref -> option string -> Eff unit.

Definition apply_before (rest : list jsval) : configurator :=
  fun target key =>
    if Nat.eqb (List.length rest) 0 then
      raise (NotFound ("Empty @before supplied on method " ++ key_to_string key
                       ++ " of Resource " ++ typeof_obj target))
    else
      match key with
      | None =>
          call (PutClassMeta (get_prototype target) "@before" "middleware" rest)
      | Some k =>
          call (PutMethodMeta (VObj target) k "@before" "middleware" rest)
      end.

(** [function before (...rest)]. *)
Definition before (rest : list jsval) : Eff configurator :=
  do _ <- check_strings rest;
  pure (apply_before rest).

(** The effect of one call on the metadata store. *)
Definition perform (c : MetadataCall) (s : Store (list jsval)) : Store (list jsval) :=
  match c with
  | PutClassMeta target category key value =>
      putClassMeta target category key value s
  | PutMethodMeta target method category key value =>
      putMethodMeta target method category key value s
  end.

Definition perform_all (log : list MetadataCall) (s : Store (list jsval))
    : Store (list jsval) :=
  fold_left (fun s c => perform c s) log s.

(** Applying a decorator expression [before(...rest)] to a target: both
    phases, on a given store. *)
Definition decorate (rest : list jsval) (target : objref) (key : option string)
    (s : Store (list jsval)) : Result unit * Store (list jsval) :=
  let (log, r) := do cfg <- before rest; cfg target key in
  (r, perform_all log s).

End Before.
Import Before.

(* ===================================================================== *)
(** ** The end-to-end scenario of the specification                       *)
(* ===================================================================== *)

Module EndToEnd.

(** [class Foo]. *)
Definition Foo : objref := Ctor 0.

(** [Foo.prototype], the target a method decorator receives. *)
Definition Foo_prototype : objref := Proto 0.

(** The store after [@before('auth','log')] on the class and
    [@before('cache')] on its method [get], applied in either order (the
    language applies the method's decorator first). *)
Definition decorated_store (class_first : bool) : Store (list jsval) :=
  let on_class := decorate [VString "auth"; VString "log"] Foo None in
  let on_get := decorate [VString "cache"] Foo_prototype (Some "get") in
  if class_first then snd (on_get (snd (on_class [])))
  else snd (on_class (snd (on_get []))).

(** [reflect('/foo.js')] on a new application on which [Foo] was registered
    at ["/foo.js"], [now] being the clock reading at registration. *)
Definition reflect_Foo (now : Z) : Result Meta :=
  eval (let* app := new_Ravel in
        let* _ := registerClassFunc app "/foo.js" Foo now in
        reflect app "/foo.js") [].

(** [reflect('/foo.js').metadata]. *)
Definition Foo_metadata (now : Z) (class_first : bool)
    : Result (TargetMeta (list jsval)) :=
  match reflect_Foo now with
  | Return m => Return (metadata m (decorated_store class_first))
  | Throw e => Throw e
  end.

End EndToEnd.
Import EndToEnd.

(* ===================================================================== *)
(** ** Facts about objects used as maps                                   *)
(* ===================================================================== *)

Section ObjectFacts.
Context {V : Type}.
Implicit Types (o : jsobject V) (k : string) (v : V).

Lemma get_set_same o k v : get_prop (set_prop o k v) k = Some v.
Proof.
  induction o as [|[k' v'] o IH]; simpl.
  - now rewrite String.eqb_refl.
  - destruct (String.eqb_spec k' k) as [->|Hne]; simpl.
    + now rewrite String.eqb_refl.
    + destruct (String.eqb_spec k' k); [contradiction | exact IH].
Qed.

Lemma get_set_other o k k' v :
  k <> k' -> get_prop (set_prop o k v) k' = get_prop o k'.
Proof.
  intros Hne. induction o as [|[k0 v0] o IH]; simpl.
  - destruct (String.eqb_spec k k'); [contradiction | reflexivity].
  - destruct (String.eqb_spec k0 k) as [->|Hk]; simpl.
    + destruct (String.eqb_spec k k'); [contradiction | reflexivity].
    + now rewrite IH.
Qed.

Lemma get_prop_None o k : get_prop o k = None <-> k ∉ map fst o.
Proof.
  induction o as [|[k' v'] o IH]; simpl.
  - split; [intros _; apply not_elem_of_nil | reflexivity].
  - rewrite not_elem_of_cons.
    destruct (String.eqb_spec k' k) as [->|Hne].
    + split; [discriminate | intros [Hk _]; now contradiction Hk].
    + rewrite IH. split; [intros H; split; [congruence | exact H] | tauto].
Qed.

Lemma get_prop_Some o k v : get_prop o k = Some v -> k ∈ map fst o.
Proof.
  induction o as [|[k' v'] o IH]; simpl; [discriminate|].
  destruct (String.eqb_spec k' k) as [->|Hne]; intros H.
  - apply list_elem_of_here.
  - apply list_elem_of_further. now apply IH.
Qed.

Lemma keys_set_present o k v :
  k ∈ map fst o -> map fst (set_prop o k v) = map fst o.
Proof.
  induction o as [|[k' v'] o IH]; simpl; intros Hin.
  - now apply elem_of_nil in Hin.
  - destruct (String.eqb_spec k' k) as [->|Hne]; simpl; [reflexivity|].
    f_equal. apply IH. apply elem_of_cons in Hin as [->|Hin]; [contradiction | exact Hin].
Qed.

Lemma keys_set_absent o k v :
  k ∉ map fst o -> map fst (set_prop o k v) = (map fst o ++ [k])%list.
Proof.
  induction o as [|[k' v'] o IH]; simpl; intros Hnin; [reflexivity|].
  apply not_elem_of_cons in Hnin as [Hne Hnin].
  destruct (String.eqb_spec k' k) as [->|_]; [contradiction|].
  simpl. f_equal. now apply IH.
Qed.

Lemma keys_set_NoDup o k v :
  NoDup (map fst o) -> NoDup (map fst (set_prop o k v)).
Proof.
  intros Hnd. destruct (get_prop o k) as [v'|] eqn:Hget.
  - apply get_prop_Some in Hget. now rewrite keys_set_present.
  - apply get_prop_None in Hget. rewrite keys_set_absent by exact Hget.
    apply NoDup_app. split; [exact Hnd|]. split.
    + intros x Hx Hx'. apply list_elem_of_singleton in Hx'. now subst.
    + apply NoDup_singleton.
Qed.

Lemma sorted_indices_perm (l : list (N * string)) : sort_indices l ≡ₚ l.
Proof.
  assert (Hins : forall x l', insert_index x l' ≡ₚ x :: l').
  { intros x l'. induction l' as [|y l' IH]; simpl; [reflexivity|].
    destruct (fst x <=? fst y)%N; [reflexivity|].
    rewrite IH. apply Permutation_swap. }
  induction l as [|x l IH]; simpl; [reflexivity|].
  now rewrite Hins, IH.
Qed.

Lemma split_keys_perm (ks : list string) :
  (map snd (index_keys ks) ++ name_keys ks)%list ≡ₚ ks.
Proof.
  induction ks as [|k ks IH]; simpl; [reflexivity|].
  destruct (array_index k); simpl.
  - now rewrite IH.
  - rewrite <- Permutation_middle. now rewrite IH.
Qed.

(** [Object.keys] lists every own key once: it is a rearrangement of the
    keys in creation order. *)
Lemma Object_keys_perm o : Object_keys o ≡ₚ map fst o.
Proof.
  unfold Object_keys. rewrite sorted_indices_perm. apply split_keys_perm.
Qed.

End ObjectFacts.

(* ===================================================================== *)
(** ** The registry: stepping the operations                              *)
(* ===================================================================== *)

Section RegistrySteps.
Implicit Types (this app : Ravel) (h : Heap) (o : jsobject Meta).

Lemma registerClassFunc_run this h o p k now :
  h !! knownClasses_slot this = Some o ->
  registerClassFunc this p k now h
  = (Return tt, <[knownClasses_slot this := set_prop o p (new_Meta p k now)]> h).
Proof.
  intros Ho. unfold registerClassFunc, bind, load_knownClasses.
  now rewrite Ho.
Qed.

Lemma registerClassFunc_no_object this h p k now :
  h !! knownClasses_slot this = None ->
  exec (registerClassFunc this p k now) h = h.
Proof.
  intros Ho. unfold exec, registerClassFunc, bind, load_knownClasses.
  now rewrite Ho.
Qed.

Lemma reflect_run this h o p :
  h !! knownClasses_slot this = Some o ->
  reflect this p h
  = (match get_prop o p with
     | Some m => Return m
     | None => Throw (not_registered p)
     end, h).
Proof.
  intros Ho. unfold reflect, bind, load_knownClasses. rewrite Ho.
  now destruct (get_prop o p).
Qed.

Lemma knownClasses_run this h o :
  h !! knownClasses_slot this = Some o ->
  knownClasses this h = (Return (Object_keys o), h).
Proof.
  intros Ho. unfold knownClasses, bind, load_knownClasses. now rewrite Ho.
Qed.

(** Neither read changes the heap, whatever the instance. *)
Lemma reflect_heap this p h : exec (reflect this p) h = h.
Proof.
  unfold exec, reflect, bind, load_knownClasses.
  destruct (h !! knownClasses_slot this) as [o|]; [|reflexivity].
  now destruct (get_prop o p).
Qed.

Lemma knownClasses_heap this h : exec (knownClasses this) h = h.
Proof.
  unfold exec, knownClasses, bind, load_knownClasses.
  now destruct (h !! knownClasses_slot this).
Qed.

(** A registration on one registry object leaves the others in place. *)
Lemma registerClassFunc_frame this h p k now (slot : nat) :
  knownClasses_slot this <> slot ->
  exec (registerClassFunc this p k now) h !! slot = h !! slot.
Proof.
  intros Hne. destruct (h !! knownClasses_slot this) as [o|] eqn:Ho.
  - unfold exec. rewrite (registerClassFunc_run _ _ _ _ _ _ Ho). simpl.
    now apply list_lookup_insert_ne.
  - now rewrite registerClassFunc_no_object.
Qed.

(** The constructor hands out an address no earlier instance holds. *)
Lemma new_Ravel_fresh h app :
  eval new_Ravel h = Return app ->
  h !! knownClasses_slot app = None
  /\ exec new_Ravel h !! knownClasses_slot app = Some empty_object.
Proof.
  unfold eval, exec, new_Ravel. simpl. intros [= <-]. simpl. split.
  - apply lookup_ge_None. lia.
  - now apply list_lookup_middle.
Qed.

Lemma new_Ravel_frame h (slot : nat) o :
  h !! slot = Some o -> exec new_Ravel h !! slot = Some o.
Proof.
  intros Ho. change (exec new_Ravel h) with (h ++ [empty_object])%list.
  rewrite lookup_app_l; [exact Ho | now apply lookup_lt_Some in Ho].
Qed.

Lemma latest_cons m hist p :
  latest (m :: hist) p = if String.eqb (path m) p then Some m else latest hist p.
Proof. reflexivity. Qed.

Lemma latest_None hist p : latest hist p = None <-> p ∉ map path hist.
Proof.
  induction hist as [|m hist IH]; simpl.
  - split; [intros _; apply not_elem_of_nil | reflexivity].
  - rewrite not_elem_of_cons. destruct (String.eqb_spec (path m) p) as [<-|Hne].
    + split; [discriminate | intros [Hp _]; now contradiction Hp].
    + rewrite IH. split; [intros H; split; [congruence | exact H] | tauto].
Qed.

Lemma latest_Some hist p m : latest hist p = Some m -> path m = p /\ m ∈ hist.
Proof.
  unfold latest. intros H. apply find_some in H as [Hin Heq].
  split; [now apply String.eqb_eq | now apply list_elem_of_In].
Qed.

(** The registry object of a constructed instance: it exists, holds each
    key once, and maps every path to the record of its latest
    registration. *)
Lemma reachable_registry app h hist :
  reachable app h hist ->
  exists o,
    h !! knownClasses_slot app = Some o
    /\ NoDup (map fst o)
    /\ forall p, get_prop o p = latest hist p.
Proof.
  induction 1 as [h Hnew | h hist p k now _ (o & Ho & Hnd & Hget)
                 | h hist other p k now Hne _ (o & Ho & Hnd & Hget)
                 | h hist _ (o & Ho & Hnd & Hget)].
  - exists empty_object. apply new_Ravel_fresh in Hnew as [_ Hnew].
    split; [exact Hnew|]. split; [apply NoDup_nil_2 | reflexivity].
  - exists (set_prop o p (new_Meta p k now)). split; [|split].
    + unfold exec. rewrite (registerClassFunc_run _ _ _ _ _ _ Ho). simpl.
      apply list_lookup_insert_eq. now apply lookup_lt_Some in Ho.
    + now apply keys_set_NoDup.
    + intros q. rewrite latest_cons. simpl.
      destruct (String.eqb_spec p q) as [<-|Hpq].
      * apply get_set_same.
      * rewrite get_set_other by exact Hpq. apply Hget.
  - exists o. split; [|split; assumption].
    rewrite registerClassFunc_frame by exact Hne. exact Ho.
  - exists o. split; [|split; assumption]. now apply new_Ravel_frame.
Qed.

End RegistrySteps.

(* ===================================================================== *)
(** ** Properties of the registry                                         *)
(* ===================================================================== *)

Ltac registry_of H o Ho Hnd Hget :=
  destruct (reachable_registry _ _ _ H) as (o & Ho & Hnd & Hget).

Lemma elem_of_paths (hist : list Meta) (p : string) :
  p ∈ map path hist <-> exists m, m ∈ hist /\ path m = p.
Proof.
  rewrite list_elem_of_In, in_map_iff. split.
  - intros (m & Hp & Hin). exists m. now rewrite list_elem_of_In.
  - intros (m & Hin & Hp). exists m. now rewrite <- list_elem_of_In.
Qed.

(** C1. On a constructed instance, [reflect] on a path that no registration
    on this instance ever named throws [NotFound]; on a path that was
    registered it returns the record stored by the latest registration of
    that path, and does not throw.  Neither case changes the heap. *)
Theorem reflect_unregistered_NotFound (app : Ravel) (h : Heap) (hist : list Meta)
    (p : string) :
  reachable app h hist ->
  (p ∉ map path hist -> reflect app p h = (Throw (not_registered p), h))
  /\ (p ∈ map path hist ->
      exists m, latest hist p = Some m /\ m ∈ hist /\ path m = p
                /\ reflect app p h = (Return m, h)).
Proof.
  intros Hreach. registry_of Hreach o Ho Hnd Hget.
  rewrite (reflect_run _ _ _ p Ho), Hget. split.
  - intros Hnin. apply latest_None in Hnin. now rewrite Hnin.
  - intros Hin. destruct (latest hist p) as [m|] eqn:Hl.
    + exists m. destruct (latest_Some _ _ _ Hl) as [Hp Hm]. auto.
    + apply latest_None in Hl. contradiction.
Qed.

Lemma reflect_unregistered_NotFound_witness :
  let app := mkRavel 0 in
  let h := exec (registerClassFunc app "/a.js" (Ctor 7) 1000) (exec new_Ravel []) in
  reflect app "/b.js" h = (Throw (not_registered "/b.js"), h)
  /\ exists m, reflect app "/a.js" h = (Return m, h).
Proof.
  intros app h.
  assert (Hreach : reachable app h [new_Meta "/a.js" (Ctor 7) 1000]).
  { apply reach_register, reach_new. reflexivity. }
  split.
  - apply (reflect_unregistered_NotFound app h _ "/b.js" Hreach).
    simpl. intros Hin. apply list_elem_of_singleton in Hin. discriminate.
  - destruct (reflect_unregistered_NotFound app h _ "/a.js" Hreach) as [_ Hin].
    destruct Hin as (m & _ & _ & _ & Hm); [apply list_elem_of_here|].
    now exists m.
Defined.

(** C2. On a constructed instance, [register(p, k)] does not throw, and
    right afterwards [reflect(p)] returns a record whose [path] is [p] and
    whose [class] is [k]: exactly the record built by this call, whatever
    was registered at [p] before, and [p] is listed once. *)
Theorem register_then_reflect (app : Ravel) (h : Heap) (hist : list Meta)
    (p : string) (k : objref) (now : Z) :
  reachable app h hist ->
  let h' := exec (registerClassFunc app p k now) h in
  eval (registerClassFunc app p k now) h = Return tt
  /\ (exists m, reflect app p h' = (Return m, h')
                /\ path m = p /\ class m = k /\ m = new_Meta p k now)
  /\ (exists ks, eval (knownClasses app) h' = Return ks /\ NoDup ks /\ p ∈ ks).
Proof.
  intros Hreach h'.
  assert (Hreach' : reachable app h' (new_Meta p k now :: hist))
    by now apply reach_register.
  registry_of Hreach o Ho Hnd Hget.
  registry_of Hreach' o' Ho' Hnd' Hget'.
  split; [|split].
  - unfold eval. now rewrite (registerClassFunc_run _ _ _ _ _ _ Ho).
  - exists (new_Meta p k now).
    rewrite (reflect_run _ _ _ p Ho'), Hget', latest_cons. simpl.
    now rewrite String.eqb_refl.
  - exists (Object_keys o'). unfold eval. rewrite (knownClasses_run _ _ _ Ho').
    split; [reflexivity|]. rewrite Object_keys_perm. split; [exact Hnd'|].
    specialize (Hget' p). rewrite latest_cons in Hget'. simpl in Hget'.
    rewrite String.eqb_refl in Hget'. now apply get_prop_Some in Hget'.
Qed.

Lemma register_then_reflect_witness :
  let app := mkRavel 0 in
  let h := exec (registerClassFunc app "/a.js" (Ctor 7) 1000) (exec new_Ravel []) in
  let h' := exec (registerClassFunc app "/a.js" (Ctor 8) 2000) h in
  exists m, reflect app "/a.js" h' = (Return m, h')
            /\ path m = "/a.js" /\ class m = Ctor 8 /\ m = new_Meta "/a.js" (Ctor 8) 2000.
Proof.
  intros app h h'.
  refine (proj1 (proj2 (register_then_reflect app h
            [new_Meta "/a.js" (Ctor 7) 1000] "/a.js" (Ctor 8) 2000 _))).
  apply reach_register, reach_new. reflexivity.
Defined.

(** C7. After any registrations on a constructed instance, in any order
    and with any classes, [knownClasses()] lists exactly the registered
    paths, each once: every registered path appears and nothing else does. *)
Theorem knownClasses_exactly_registered (app : Ravel) (h : Heap) (hist : list Meta) :
  reachable app h hist ->
  exists ks, knownClasses app h = (Return ks, h)
             /\ NoDup ks
             /\ forall p, p ∈ ks <-> p ∈ map path hist.
Proof.
  intros Hreach. registry_of Hreach o Ho Hnd Hget.
  exists (Object_keys o). split; [now apply knownClasses_run|].
  split; [now rewrite Object_keys_perm|].
  intros p. rewrite Object_keys_perm. specialize (Hget p).
  destruct (latest hist p) as [m|] eqn:Hl.
  - split; intros _.
    + apply elem_of_paths. exists m. destruct (latest_Some _ _ _ Hl). auto.
    + now apply get_prop_Some in Hget.
  - apply get_prop_None in Hget. apply latest_None in Hl. tauto.
Qed.

Lemma knownClasses_exactly_registered_witness :
  let app := mkRavel 0 in
  let h := exec (registerClassFunc app "7" (Ctor 2) 30)
             (exec (registerClassFunc app "/b.js" (Ctor 1) 20)
                (exec (registerClassFunc app "/a.js" (Ctor 0) 10)
                   (exec new_Ravel []))) in
  exists ks, knownClasses app h = (Return ks, h)
             /\ NoDup ks
             /\ forall p, p ∈ ks <-> p ∈ ["7"; "/b.js"; "/a.js"].
Proof.
  intros app h.
  apply (knownClasses_exactly_registered app h
           [new_Meta "7" (Ctor 2) 30; new_Meta "/b.js" (Ctor 1) 20;
            new_Meta "/a.js" (Ctor 0) 10]).
  do 3 apply reach_register. apply reach_new. reflexivity.
Defined.

(** C8, as the code has it.  Registering the same path twice on a
    constructed instance replaces the record by the one the second call
    builds: its [path] and [class] are those of the second call and its
    [registeredAt] is the reading [t2] of [Date.now()] during the second
    call, whatever the reading [t1] of the first call was.  So the
    [registeredAt] read after the second registration is not below the one
    read after the first exactly when the clock did not go back between the
    calls.  The path is still listed once. *)
Theorem reregister_fresh_record (app : Ravel) (h : Heap) (hist : list Meta)
    (p : string) (k1 k2 : objref) (t1 t2 : Z) :
  reachable app h hist ->
  let h1 := exec (registerClassFunc app p k1 t1) h in
  let h2 := exec (registerClassFunc app p k2 t2) h1 in
  exists m1 m2 ks,
    reflect app p h1 = (Return m1, h1)
    /\ reflect app p h2 = (Return m2, h2)
    /\ (path m1 = p /\ class m1 = k1 /\ registeredAt m1 = t1)
    /\ (path m2 = p /\ class m2 = k2 /\ registeredAt m2 = t2)
    /\ ((registeredAt m1 <= registeredAt m2)%Z <-> (t1 <= t2)%Z)
    /\ knownClasses app h2 = (Return ks, h2)
    /\ NoDup ks /\ p ∈ ks.
Proof.
  intros Hreach h1 h2.
  assert (Hreach1 : reachable app h1 (new_Meta p k1 t1 :: hist))
    by now apply reach_register.
  assert (Hreach2 : reachable app h2 (new_Meta p k2 t2 :: new_Meta p k1 t1 :: hist))
    by now apply reach_register.
  registry_of Hreach1 o1 Ho1 Hnd1 Hget1.
  registry_of Hreach2 o2 Ho2 Hnd2 Hget2.
  assert (H1 : get_prop o1 p = Some (new_Meta p k1 t1)).
  { rewrite Hget1, latest_cons. simpl. now rewrite String.eqb_refl. }
  assert (H2 : get_prop o2 p = Some (new_Meta p k2 t2)).
  { rewrite Hget2, latest_cons. simpl. now rewrite String.eqb_refl. }
  exists (new_Meta p k1 t1), (new_Meta p k2 t2), (Object_keys o2).
  rewrite (reflect_run _ _ _ p Ho1), H1, (reflect_run _ _ _ p Ho2), H2.
  rewrite (knownClasses_run _ _ _ Ho2).
  do 2 (split; [reflexivity|]).
  do 2 (split; [now repeat split|]).
  split; [reflexivity|]. split; [reflexivity|].
  rewrite Object_keys_perm. split; [exact Hnd2|].
  now apply get_prop_Some in H2.
Qed.

Lemma reregister_fresh_record_witness :
  let app := mkRavel 0 in
  let h := exec new_Ravel [] in
  let h1 := exec (registerClassFunc app "/a.js" (Ctor 7) 1000) h in
  let h2 := exec (registerClassFunc app "/a.js" (Ctor 8) 1001) h1 in
  exists m1 m2 ks,
    reflect app "/a.js" h1 = (Return m1, h1)
    /\ reflect app "/a.js" h2 = (Return m2, h2)
    /\ (path m1 = "/a.js" /\ class m1 = Ctor 7 /\ registeredAt m1 = 1000%Z)
    /\ (path m2 = "/a.js" /\ class m2 = Ctor 8 /\ registeredAt m2 = 1001%Z)
    /\ ((registeredAt m1 <= registeredAt m2)%Z <-> (1000 <= 1001)%Z)
    /\ knownClasses app h2 = (Return ks, h2)
    /\ NoDup ks /\ "/a.js" ∈ ks.
Proof.
  intros app h h1 h2.
  apply (reregister_fresh_record app h [] "/a.js" (Ctor 7) (Ctor 8) 1000 1001).
  apply reach_new. reflexivity.
Defined.

(** C8, as stated.  With the clock set back between the two calls
    ([Date.now()] reads 2000 during the first registration and 1000 during
    the second), the [registeredAt] read after the second registration is
    below the one read after the first. *)
Lemma reregister_after_clock_set_back :
  let app := mkRavel 0 in
  let h := exec new_Ravel [] in
  let h1 := exec (registerClassFunc app "/a.js" (Ctor 7) 2000) h in
  let h2 := exec (registerClassFunc app "/a.js" (Ctor 7) 1000) h1 in
  exists m1 m2,
    eval (reflect app "/a.js") h1 = Return m1
    /\ eval (reflect app "/a.js") h2 = Return m2
    /\ ~ (registeredAt m1 <= registeredAt m2)%Z.
Proof.
  intros app h h1 h2.
  exists (mkMeta "/a.js" (Ctor 7) 2000), (mkMeta "/a.js" (Ctor 7) 1000).
  split; [reflexivity|]. split; [reflexivity|].
  unfold registeredAt. simpl. lia.
Qed.

(** Instances built by the constructor never share a registry object: the
    later one gets an address the earlier one does not hold. *)
Lemma constructed_instances_distinct (a b : Ravel) (h : Heap) (hist : list Meta) :
  reachable a h hist ->
  eval new_Ravel h = Return b ->
  knownClasses_slot a <> knownClasses_slot b.
Proof.
  intros Hreach Hnew Heq. registry_of Hreach o Ho Hnd Hget.
  apply new_Ravel_fresh in Hnew as [Hnone _]. congruence.
Qed.

(** C9. The registry belongs to the instance: a registration on instance
    [a] changes neither what [reflect] returns nor what [knownClasses]
    returns on an instance [b] that holds another registry object; a path
    that [b] does not know still fails with [NotFound] there. *)
Theorem registry_isolated_per_instance (a b : Ravel) (h : Heap)
    (p q : string) (k : objref) (now : Z) :
  knownClasses_slot a <> knownClasses_slot b ->
  let h' := exec (registerClassFunc a p k now) h in
  eval (reflect b q) h' = eval (reflect b q) h
  /\ eval (knownClasses b) h' = eval (knownClasses b) h
  /\ (eval (reflect b q) h = Throw (not_registered q) ->
      eval (reflect b q) h' = Throw (not_registered q)).
Proof.
  intros Hne h'.
  assert (Hslot : h' !! knownClasses_slot b = h !! knownClasses_slot b)
    by now apply registerClassFunc_frame.
  assert (Hreflect : eval (reflect b q) h' = eval (reflect b q) h).
  { unfold eval, reflect, bind, load_knownClasses. rewrite Hslot.
    destruct (h !! knownClasses_slot b) as [o|]; [|reflexivity].
    now destruct (get_prop o q). }
  split; [exact Hreflect|]. split.
  - unfold eval, knownClasses, bind, load_knownClasses. rewrite Hslot.
    now destruct (h !! knownClasses_slot b).
  - intros Hnf. now rewrite Hreflect.
Qed.

Lemma registry_isolated_per_instance_witness :
  let h0 := exec new_Ravel [] in
  let h := exec new_Ravel h0 in
  let a := mkRavel 0 in
  let b := mkRavel 1 in
  let h' := exec (registerClassFunc a "/a.js" (Ctor 7) 1000) h in
  eval new_Ravel [] = Return a
  /\ eval new_Ravel h0 = Return b
  /\ eval (reflect b "/a.js") h' = Throw (not_registered "/a.js")
  /\ eval (knownClasses b) h' = Return [].
Proof.
  intros h0 h a b h'.
  destruct (registry_isolated_per_instance a b h "/a.js" "/a.js" (Ctor 7) 1000)
    as (Hreflect & Hkeys & _).
  - simpl. lia.
  - split; [reflexivity|]. split; [reflexivity|]. split.
    + unfold h'. rewrite Hreflect. reflexivity.
    + unfold h'. rewrite Hkeys. reflexivity.
Defined.

(** C10. [reflect] and [knownClasses] only read: neither changes the heap
    (so neither the registry mapping nor any record in it), and calling
    either twice in a row gives the same result both times: the same
    record, with the same [path], [class] and [registeredAt], or the same
    sequence of paths. *)
Theorem reads_do_not_modify (this : Ravel) (h : Heap) (p : string) :
  exec (reflect this p) h = h
  /\ exec (knownClasses this) h = h
  /\ (let* m1 := reflect this p in
      let* m2 := reflect this p in
      ret (m1, m2)) h
     = (match eval (reflect this p) h with
        | Return m => Return (m, m)
        | Throw e => Throw e
        end, h)
  /\ (let* ks1 := knownClasses this in
      let* ks2 := knownClasses this in
      ret (ks1, ks2)) h
     = (match eval (knownClasses this) h with
        | Return ks => Return (ks, ks)
        | Throw e => Throw e
        end, h).
Proof.
  split; [apply reflect_heap|]. split; [apply knownClasses_heap|].
  unfold eval, reflect, knownClasses, bind, load_knownClasses, ret, throw.
  destruct (h !! knownClasses_slot this) as [o|] eqn:Ho; simpl.
  - split; [|now rewrite Ho].
    destruct (get_prop o p) as [m|] eqn:Hm; simpl; [|reflexivity].
    now rewrite Ho, Hm.
  - split; reflexivity.
Qed.

(* ===================================================================== *)
(** ** Properties of [@before]                                            *)
(* ===================================================================== *)

Lemma check_strings_all (rest : list jsval) :
  (forall r, r ∈ rest -> typeof r = "string") ->
  check_strings rest = pure tt.
Proof.
  induction rest as [|r rest IH]; simpl; intros Hall; [reflexivity|].
  rewrite (Hall r) by apply list_elem_of_here. simpl.
  apply IH. intros r' Hr'. apply Hall. now apply list_elem_of_further.
Qed.

Lemma check_strings_some (rest : list jsval) (r : jsval) :
  r ∈ rest -> typeof r <> "string" ->
  check_strings rest = raise must_be_strings.
Proof.
  intros Hin Hty. induction rest as [|r' rest IH]; simpl.
  - now apply elem_of_nil in Hin.
  - destruct (String.eqb_spec (typeof r') "string") as [Heq|Hne]; simpl;
      [|reflexivity].
    apply IH. apply elem_of_cons in Hin as [->|Hin]; [contradiction | exact Hin].
Qed.

Lemma before_strings (names : list string) :
  before (map VString names) = pure (apply_before (map VString names)).
Proof.
  unfold before. rewrite check_strings_all; [reflexivity|].
  intros r Hr. apply list_elem_of_In, in_map_iff in Hr as (s & <- & _).
  reflexivity.
Qed.

(** C3. [before] called with an argument list in which some element is not
    a string throws [IllegalValue] at once: it returns no configurator, it
    has made no call on the metadata module, and so the store is as it was. *)
Theorem before_non_string_IllegalValue (rest : list jsval) (r : jsval) :
  r ∈ rest ->
  typeof r <> "string" ->
  before rest = ([], Throw must_be_strings)
  /\ forall s, perform_all (fst (before rest)) s = s.
Proof.
  intros Hin Hty.
  assert (Hb : before rest = ([], Throw must_be_strings)).
  { unfold before. now rewrite (check_strings_some rest r Hin Hty). }
  split; [exact Hb|]. intros s. now rewrite Hb.
Qed.

Lemma before_non_string_IllegalValue_witness :
  before [VString "auth"; VNumber 42]
  = ([], Throw (IllegalValue "Values supplied to @before decorator must be strings."))
  /\ forall s, perform_all (fst (before [VString "auth"; VNumber 42])) s = s.
Proof.
  apply (before_non_string_IllegalValue [VString "auth"; VNumber 42] (VNumber 42)).
  - apply list_elem_of_further, list_elem_of_here.
  - simpl. discriminate.
Defined.

(** C4. [before()] with no argument passes validation and returns a
    configurator; applying it to a method [m] of any target throws
    [NotFound] with a message that names [m], without any call on the
    metadata module, so that the store is unchanged. *)
Theorem before_empty_NotFound_on_application :
  exists cfg : configurator,
    before [] = ([], Return cfg)
    /\ (forall target m,
          cfg target (Some m)
          = ([], Throw (NotFound ("Empty @before supplied on method " ++ m
                                  ++ " of Resource " ++ typeof_obj target))))
    /\ (forall target m s,
          decorate [] target (Some m) s
          = (Throw (NotFound ("Empty @before supplied on method " ++ m
                              ++ " of Resource " ++ typeof_obj target)), s)).
Proof.
  exists (apply_before []). repeat split.
Qed.

(** C5. For a non-empty list of string arguments, the configurator that
    [before] returns makes exactly one call on the metadata module: applied
    without a method key, [putClassMeta] on the target's prototype with
    namespace ["@before"], key ["middleware"] and the argument list as
    value; applied with a method key, [putMethodMeta] on the target for that
    method with the same namespace, key and value. *)
Theorem before_writes_arguments_once (names : list string) (target : objref) :
  names <> [] ->
  let rest := map VString names in
  exists cfg : configurator,
    before rest = ([], Return cfg)
    /\ cfg target None
       = ([PutClassMeta (get_prototype target) "@before" "middleware" rest], Return tt)
    /\ (forall m,
          cfg target (Some m)
          = ([PutMethodMeta (VObj target) m "@before" "middleware" rest], Return tt))
    /\ (forall s,
          decorate rest target None s
          = (Return tt, putClassMeta (get_prototype target) "@before" "middleware" rest s))
    /\ (forall m s,
          decorate rest target (Some m) s
          = (Return tt, putMethodMeta (VObj target) m "@before" "middleware" rest s)).
Proof.
  intros Hne rest. exists (apply_before rest).
  assert (Hb : before rest = ([], Return (apply_before rest)))
    by apply before_strings.
  assert (Hlen : Nat.eqb (List.length rest) 0 = false).
  { subst rest. destruct names; [contradiction | reflexivity]. }
  split; [exact Hb|].
  unfold decorate. rewrite Hb. unfold apply_before, and_then. rewrite Hlen.
  repeat split.
Qed.

Lemma before_writes_arguments_once_witness :
  exists cfg : configurator,
    before [VString "auth"; VString "log"] = ([], Return cfg)
    /\ cfg (Ctor 0) None
       = ([PutClassMeta (VObj (Proto 0)) "@before" "middleware"
             [VString "auth"; VString "log"]], Return tt).
Proof.
  destruct (before_writes_arguments_once ["auth"; "log"] (Ctor 0))
    as (cfg & Hb & Hclass & _).
  - discriminate.
  - exists cfg. split; [exact Hb | exact Hclass].
Defined.

(** C6, as the code has it.  In the end-to-end scenario ([Foo] registered at
    ["/foo.js"], [before('auth','log')] on the class, [before('cache')] on
    its method [get]), [reflect('/foo.js').metadata] shows
    [{"@before": {"middleware": ["auth","log"]}}] at class scope, and the
    effective list of [get] under the namespace ["@before"] is
    [["auth","log","cache"]], class-level entries first. *)
Theorem end_to_end_at_before (now : Z) (class_first : bool) :
  exists view,
    Foo_metadata now class_first = Return view
    /\ class_level view
       = [("@before", [("middleware", [VString "auth"; VString "log"])])]
    /\ effective_middleware view "@before" "get"
       = [VString "auth"; VString "log"; VString "cache"].
Proof.
  destruct class_first; eexists; repeat split.
Qed.

(** C6, as stated.  The class scope of [reflect('/foo.js').metadata] in the
    scenario is not [{"before": {"middleware": ["auth","log"]}}]: the
    decorator writes under the namespace ["@before"]. *)
Lemma end_to_end_not_under_before :
  ~ (exists view,
       Foo_metadata 1000 true = Return view
       /\ class_level view
          = [("before", [("middleware", [VString "auth"; VString "log"])])]).
Proof.
  intros (view & Hview & Hclass). vm_compute in Hview.
  injection Hview as <-. discriminate Hclass.
Qed.

(* ===================================================================== *)
(** ** Further properties of the registry                                 *)
(* ===================================================================== *)

(** Ascending numeric order on indexed keys. *)
Lemma insert_index_sorted (x : N * string) (l : list (N * string)) :
  Sorted (fun a b => (fst a <= fst b)%N) l ->
  Sorted (fun a b => (fst a <= fst b)%N) (insert_index x l).
Proof.
  induction 1 as [|y l Hs IH Hhd]; simpl.
  - repeat constructor.
  - destruct (N.leb_spec (fst x) (fst y)) as [Hle|Hlt].
    + constructor; [now constructor | now constructor].
    + constructor; [exact IH|].
      destruct l as [|z l]; simpl.
      * constructor. lia.
      * destruct (fst x <=? fst z)%N; constructor; [lia|].
        now inversion Hhd.
Qed.

Lemma sort_indices_sorted (l : list (N * string)) :
  Sorted (fun a b => (fst a <= fst b)%N) (sort_indices l).
Proof.
  induction l as [|x l IH]; simpl; [constructor|].
  now apply insert_index_sorted.
Qed.

Lemma name_keys_filter (ks : list string) :
  name_keys ks = List.filter (fun k => negb (is_array_index k)) ks.
Proof.
  induction ks as [|k ks IH]; simpl; [reflexivity|].
  unfold is_array_index at 1. destruct (array_index k); simpl; now rewrite IH.
Qed.

Lemma name_keys_all (ks : list string) :
  (forall k, k ∈ ks -> array_index k = None) ->
  index_keys ks = [] /\ name_keys ks = ks.
Proof.
  induction ks as [|k ks IH]; simpl; intros Hall; [now split|].
  rewrite (Hall k) by apply list_elem_of_here.
  destruct IH as [Hi Hn].
  - intros k' Hk'. apply Hall. now apply list_elem_of_further.
  - now rewrite Hi, Hn.
Qed.

Lemma elem_of_index_keys (ks : list string) (n : N) (k : string) :
  (n, k) ∈ index_keys ks <-> k ∈ ks /\ array_index k = Some n.
Proof.
  induction ks as [|k' ks IH]; simpl.
  - rewrite !elem_of_nil. tauto.
  - destruct (array_index k') as [n'|] eqn:Hk'.
    + rewrite !elem_of_cons, IH. split.
      * intros [[= -> ->]|[Hin Hidx]]; auto.
      * intros [[->|Hin] Hidx]; [left; congruence | auto].
    + rewrite elem_of_cons, IH. split.
      * intros [Hin Hidx]; auto.
      * intros [[->|Hin] Hidx]; [congruence | auto].
Qed.

Lemma existsb_eqb_elem_of (k : string) (ks : list string) :
  existsb (String.eqb k) ks = true <-> k ∈ ks.
Proof.
  rewrite existsb_exists, list_elem_of_In. split.
  - intros (x & Hin & Heq). apply String.eqb_eq in Heq. now subst.
  - intros Hin. exists k. split; [exact Hin | apply String.eqb_refl].
Qed.

(** The registry object of a constructed instance holds its keys in the
    order of first registration. *)
Lemma reachable_key_order (app : Ravel) (h : Heap) (hist : list Meta) :
  reachable app h hist ->
  exists o, h !! knownClasses_slot app = Some o
            /\ map fst o = registration_order hist.
Proof.
  induction 1 as [h Hnew | h hist p k now _ (o & Ho & Hkeys)
                 | h hist other p k now Hne _ (o & Ho & Hkeys)
                 | h hist _ (o & Ho & Hkeys)].
  - exists empty_object. apply new_Ravel_fresh in Hnew as [_ Hnew]. now split.
  - exists (set_prop o p (new_Meta p k now)). split.
    + unfold exec. rewrite (registerClassFunc_run _ _ _ _ _ _ Ho). simpl.
      apply list_lookup_insert_eq. now apply lookup_lt_Some in Ho.
    + simpl. rewrite <- Hkeys.
      destruct (existsb (String.eqb p) (map fst o)) eqn:Hex.
      * apply keys_set_present. now apply existsb_eqb_elem_of.
      * apply keys_set_absent. intros Hin.
        apply existsb_eqb_elem_of in Hin. congruence.
  - exists o. split; [|exact Hkeys].
    rewrite registerClassFunc_frame by exact Hne. exact Ho.
  - exists o. split; [|exact Hkeys]. now apply new_Ravel_frame.
Qed.

(** X1. A registration at [p] leaves every other path of the same instance
    as it was: [reflect(q)] for [q <> p] gives the same outcome, record
    included, before and after. *)
Theorem register_keeps_other_paths (this : Ravel) (h : Heap) (p q : string)
    (k : objref) (now : Z) :
  p <> q ->
  eval (reflect this q) (exec (registerClassFunc this p k now) h)
  = eval (reflect this q) h.
Proof.
  intros Hpq. destruct (h !! knownClasses_slot this) as [o|] eqn:Ho.
  - unfold exec at 1. rewrite (registerClassFunc_run _ _ _ _ _ _ Ho). simpl.
    assert (Ho' : <[knownClasses_slot this := set_prop o p (new_Meta p k now)]> h
                  !! knownClasses_slot this
                  = Some (set_prop o p (new_Meta p k now))).
    { apply list_lookup_insert_eq. now apply lookup_lt_Some in Ho. }
    unfold eval. rewrite (reflect_run _ _ _ q Ho'), (reflect_run _ _ _ q Ho).
    simpl. now rewrite get_set_other.
  - now rewrite registerClassFunc_no_object.
Qed.

Lemma register_keeps_other_paths_witness :
  let app := mkRavel 0 in
  let h := exec (registerClassFunc app "/a.js" (Ctor 7) 1000) (exec new_Ravel []) in
  eval (reflect app "/a.js") (exec (registerClassFunc app "/b.js" (Ctor 8) 2000) h)
  = Return (new_Meta "/a.js" (Ctor 7) 1000).
Proof.
  intros app h.
  rewrite (register_keeps_other_paths app h "/b.js" "/a.js" (Ctor 8) 2000).
  - reflexivity.
  - discriminate.
Defined.

(** X2. Registering again a path the instance already knows leaves the
    sequence [knownClasses()] returns unchanged, order included; registering
    a path it does not know makes the sequence one longer. *)
Theorem reregister_keeps_enumeration (app : Ravel) (h : Heap) (hist : list Meta)
    (p : string) (k : objref) (now : Z) :
  reachable app h hist ->
  let h' := exec (registerClassFunc app p k now) h in
  (p ∈ map path hist ->
   eval (knownClasses app) h' = eval (knownClasses app) h)
  /\ (p ∉ map path hist ->
      exists ks ks', eval (knownClasses app) h = Return ks
                     /\ eval (knownClasses app) h' = Return ks'
                     /\ ks' ≡ₚ p :: ks
                     /\ List.length ks' = S (List.length ks)).
Proof.
  intros Hreach h'.
  assert (Hreach' : reachable app h' (new_Meta p k now :: hist))
    by now apply reach_register.
  registry_of Hreach o Ho Hnd Hget.
  assert (Ho' : h' !! knownClasses_slot app = Some (set_prop o p (new_Meta p k now))).
  { unfold h', exec. rewrite (registerClassFunc_run _ _ _ _ _ _ Ho). simpl.
    apply list_lookup_insert_eq. now apply lookup_lt_Some in Ho. }
  unfold eval. rewrite (knownClasses_run _ _ _ Ho'), (knownClasses_run _ _ _ Ho).
  simpl. split.
  - intros Hin. unfold Object_keys. rewrite keys_set_present; [reflexivity|].
    specialize (Hget p). destruct (get_prop o p) eqn:Hp.
    + now apply get_prop_Some in Hp.
    + symmetry in Hget. apply latest_None in Hget. contradiction.
  - intros Hnin. apply latest_None in Hnin. rewrite <- Hget in Hnin.
    apply get_prop_None in Hnin.
    exists (Object_keys o), (Object_keys (set_prop o p (new_Meta p k now))).
    assert (Hperm : Object_keys (set_prop o p (new_Meta p k now))
                    ≡ₚ p :: Object_keys o).
    { rewrite !Object_keys_perm, keys_set_absent by exact Hnin.
      now rewrite Permutation_app_comm. }
    repeat split; [exact Hperm|]. now rewrite Hperm.
Qed.

Lemma reregister_keeps_enumeration_witness :
  let app := mkRavel 0 in
  let h := exec (registerClassFunc app "/b.js" (Ctor 1) 20)
             (exec (registerClassFunc app "/a.js" (Ctor 0) 10)
                (exec new_Ravel [])) in
  eval (knownClasses app) (exec (registerClassFunc app "/a.js" (Ctor 5) 30) h)
  = Return ["/a.js"; "/b.js"].
Proof.
  intros app h.
  destruct (reregister_keeps_enumeration app h
              [new_Meta "/b.js" (Ctor 1) 20; new_Meta "/a.js" (Ctor 0) 10]
              "/a.js" (Ctor 5) 30) as [Hsame _].
  - do 2 apply reach_register. apply reach_new. reflexivity.
  - rewrite Hsame; [reflexivity|].
    apply list_elem_of_further, list_elem_of_here.
Defined.

Lemma elem_of_registration_order (hist : list Meta) (p : string) :
  p ∈ registration_order hist <-> p ∈ map path hist.
Proof.
  induction hist as [|m hist IH]; simpl; [reflexivity|].
  rewrite elem_of_cons, <- IH.
  destruct (existsb (String.eqb (path m)) (registration_order hist)) eqn:Hex.
  - apply existsb_eqb_elem_of in Hex. split; [auto | intros [->|Hin]; auto].
  - rewrite elem_of_app, list_elem_of_singleton. tauto.
Qed.

(** X3. [knownClasses()] on a constructed instance returns first the
    registered paths that are array indices, in ascending numeric order, and
    then all other registered paths in the order in which each was first
    registered. *)
Theorem knownClasses_order (app : Ravel) (h : Heap) (hist : list Meta) :
  reachable app h hist ->
  exists idx : list (N * string),
    knownClasses app h
    = (Return (map snd idx
               ++ List.filter (fun k => negb (is_array_index k))
                    (registration_order hist))%list, h)
    /\ Sorted (fun a b => (fst a <= fst b)%N) idx
    /\ forall n k, (n, k) ∈ idx <-> k ∈ map path hist /\ array_index k = Some n.
Proof.
  intros Hreach. destruct (reachable_key_order _ _ _ Hreach) as (o & Ho & Hkeys).
  exists (sort_indices (index_keys (map fst o))). split; [|split].
  - rewrite (knownClasses_run _ _ _ Ho). unfold Object_keys.
    now rewrite name_keys_filter, Hkeys.
  - apply sort_indices_sorted.
  - intros n k. rewrite sorted_indices_perm, elem_of_index_keys, Hkeys.
    now rewrite elem_of_registration_order.
Qed.

Lemma knownClasses_order_witness :
  let app := mkRavel 0 in
  let h := exec (registerClassFunc app "/a.js" (Ctor 3) 40)
             (exec (registerClassFunc app "7" (Ctor 2) 30)
                (exec (registerClassFunc app "/b.js" (Ctor 1) 20)
                   (exec (registerClassFunc app "10" (Ctor 0) 10)
                      (exec new_Ravel [])))) in
  exists idx : list (N * string),
    knownClasses app h = (Return (map snd idx ++ ["/b.js"; "/a.js"])%list, h)
    /\ Sorted (fun a b => (fst a <= fst b)%N) idx
    /\ forall n k, (n, k) ∈ idx
                   <-> k ∈ ["/a.js"; "7"; "/b.js"; "10"] /\ array_index k = Some n.
Proof.
  intros app h.
  apply (knownClasses_order app h
           [new_Meta "/a.js" (Ctor 3) 40; new_Meta "7" (Ctor 2) 30;
            new_Meta "/b.js" (Ctor 1) 20; new_Meta "10" (Ctor 0) 10]).
  do 4 apply reach_register. apply reach_new. reflexivity.
Defined.

(** X4. When no registered path is an array index, [knownClasses()]
    returns the paths exactly in the order in which each was first
    registered; registering a path again does not move it. *)
Theorem knownClasses_first_registration_order (app : Ravel) (h : Heap)
    (hist : list Meta) :
  reachable app h hist ->
  (forall p, p ∈ map path hist -> array_index p = None) ->
  knownClasses app h = (Return (registration_order hist), h).
Proof.
  intros Hreach Hnames.
  destruct (reachable_key_order _ _ _ Hreach) as (o & Ho & Hkeys).
  rewrite (knownClasses_run _ _ _ Ho). unfold Object_keys. rewrite Hkeys.
  destruct (name_keys_all (registration_order hist)) as [Hi Hn].
  - intros k Hk. apply Hnames. now apply elem_of_registration_order.
  - now rewrite Hi, Hn.
Qed.

Lemma knownClasses_first_registration_order_witness :
  let app := mkRavel 0 in
  let h := exec (registerClassFunc app "/b.js" (Ctor 2) 30)
             (exec (registerClassFunc app "/a.js" (Ctor 1) 20)
                (exec (registerClassFunc app "/b.js" (Ctor 0) 10)
                   (exec new_Ravel []))) in
  knownClasses app h = (Return ["/b.js"; "/a.js"], h).
Proof.
  intros app h.
  apply (knownClasses_first_registration_order app h
           [new_Meta "/b.js" (Ctor 2) 30; new_Meta "/a.js" (Ctor 1) 20;
            new_Meta "/b.js" (Ctor 0) 10]).
  - do 3 apply reach_register. apply reach_new. reflexivity.
  - intros p Hp. simpl in Hp.
    repeat (apply elem_of_cons in Hp as [->|Hp]; [reflexivity|]).
    now apply elem_of_nil in Hp.
Defined.

(** X5. The two reads agree on every heap: a path is in the sequence
    [knownClasses()] returns exactly when [reflect] on it returns a record,
    so each listed path can be reflected and nothing else can. *)
Theorem knownClasses_iff_reflect (this : Ravel) (h : Heap) (p : string) :
  (exists ks, eval (knownClasses this) h = Return ks /\ p ∈ ks)
  <-> (exists m, eval (reflect this p) h = Return m).
Proof.
  unfold eval, knownClasses, reflect, bind, load_knownClasses, ret, throw.
  destruct (h !! knownClasses_slot this) as [o|]; simpl.
  - destruct (get_prop o p) as [m|] eqn:Hp; simpl; split.
    + intros _. now exists m.
    + intros _. exists (Object_keys o). split; [reflexivity|].
      rewrite Object_keys_perm. now apply get_prop_Some in Hp.
    + intros (ks & [= <-] & Hin). rewrite Object_keys_perm in Hin.
      apply get_prop_None in Hp. contradiction.
    + intros (m & [=]).
  - split; [intros (ks & [=] & _) | intros (m & [=])].
Qed.

(* ===================================================================== *)
(** ** Further properties of [@before]                                    *)
(* ===================================================================== *)

(** The validation loop accepts every element or stops at a non-string. *)
Lemma check_strings_outcome (rest : list jsval) :
  (check_strings rest = pure tt /\ forall r, r ∈ rest -> typeof r = "string")
  \/ (check_strings rest = raise must_be_strings
      /\ exists r, r ∈ rest /\ typeof r <> "string").
Proof.
  induction rest as [|r rest IH]; simpl.
  - left. split; [reflexivity|]. intros r Hr. now apply elem_of_nil in Hr.
  - destruct (String.eqb_spec (typeof r) "string") as [Heq|Hne]; simpl.
    + destruct IH as [[Hok Hall]|[Hko (r' & Hin & Hty)]].
      * left. split; [exact Hok|]. intros r' Hr'.
        apply elem_of_cons in Hr' as [->|Hr']; auto.
      * right. split; [exact Hko|]. exists r'. split; [|exact Hty].
        now apply list_elem_of_further.
    + right. split; [reflexivity|]. exists r. split; [apply list_elem_of_here|exact Hne].
Qed.

(** X6. The validation phase of [before] never touches the metadata
    module, and it returns a configurator exactly when every argument is a
    string; otherwise the error is the [IllegalValue] of the loop. *)
Theorem before_returns_iff_all_strings (rest : list jsval) :
  fst (before rest) = []
  /\ ((exists cfg, snd (before rest) = Return cfg)
      <-> forall r, r ∈ rest -> typeof r = "string")
  /\ (forall e, snd (before rest) = Throw e -> e = must_be_strings).
Proof.
  unfold before.
  destruct (check_strings_outcome rest) as [[-> Hall]|[-> (r & Hin & Hty)]]; simpl.
  - split; [reflexivity|]. split; [|discriminate].
    split; [intros _; exact Hall | intros _; eauto].
  - split; [reflexivity|]. split; [|now intros e [= <-]].
    split; [intros (cfg & [=]) | intros Hall; now specialize (Hall r Hin)].
Qed.

(** What [decorate] does, by cases on the argument list. *)
Lemma decorate_outcome (rest : list jsval) (target : objref) (key : option string)
    (s : Store (list jsval)) :
  ((exists r, r ∈ rest /\ typeof r <> "string")
   /\ decorate rest target key s = (Throw must_be_strings, s))
  \/ (rest = []
      /\ decorate rest target key s
         = (Throw (NotFound ("Empty @before supplied on method " ++ key_to_string key
                             ++ " of Resource " ++ typeof_obj target)), s))
  \/ (rest <> [] /\ (forall r, r ∈ rest -> typeof r = "string")
      /\ decorate rest target key s
         = (Return tt,
            match key with
            | None => putClassMeta (get_prototype target) "@before" "middleware" rest s
            | Some k => putMethodMeta (VObj target) k "@before" "middleware" rest s
            end)).
Proof.
  unfold decorate, before.
  destruct (check_strings_outcome rest) as [[-> Hall]|[-> Hbad]]; simpl.
  - right. destruct rest as [|r rest].
    + left. now split.
    + right. split; [discriminate|]. split; [exact Hall|].
      unfold apply_before. simpl. now destruct key.
  - left. now split.
Qed.


Lemma before_returns_iff_all_strings_witness :
  (exists cfg, snd (before [VString "auth"; VString ""; VString "auth"]) = Return cfg)
  /\ snd (before [VString "auth"; VNull]) = Throw must_be_strings.
Proof.
  split.
  - apply (before_returns_iff_all_strings [VString "auth"; VString ""; VString "auth"]).
    intros r Hr.
    repeat (apply elem_of_cons in Hr as [->|Hr]; [reflexivity|]).
    now apply elem_of_nil in Hr.
  - destruct (snd (before [VString "auth"; VNull])) as [cfg|e] eqn:Hb.
    + discriminate Hb.
    + f_equal.
      now apply (proj2 (proj2 (before_returns_iff_all_strings [VString "auth"; VNull]))).
Defined.


(* ===================================================================== *)
(** ** Decorators seen through [reflect(...).metadata]                    *)
(* ===================================================================== *)

Lemma strict_eqb_eq (a b : jsval) : strict_eqb a b = true <-> a = b.
Proof.
  destruct a as [| |x|x|x|[x|x|x]], b as [| |y|y|y|[y|y|y]]; simpl;
    try (split; [discriminate | congruence]); try tauto.
  - rewrite Bool.eqb_true_iff. split; congruence.
  - rewrite Z.eqb_eq. split; congruence.
  - rewrite String.eqb_eq. split; congruence.
  - rewrite Nat.eqb_eq. split; congruence.
  - rewrite Nat.eqb_eq. split; congruence.
  - rewrite Nat.eqb_eq. split; congruence.
Qed.

Section StoreFacts.
Context {V : Type}.
Implicit Types (s : Store V) (t : jsval) (tm : TargetMeta V).

Lemma lookup_write_same s t tm : lookup_target (write_target s t tm) t = tm.
Proof.
  assert (Hrefl : strict_eqb t t = true) by now apply strict_eqb_eq.
  induction s as [|[t0 tm0] s IH]; simpl.
  - now rewrite Hrefl.
  - destruct (strict_eqb t0 t) eqn:Ht0; simpl; now rewrite Ht0.
Qed.

Lemma lookup_write_other s t t' tm :
  t <> t' -> lookup_target (write_target s t tm) t' = lookup_target s t'.
Proof.
  intros Hne.
  assert (Hf : strict_eqb t t' = false).
  { destruct (strict_eqb t t') eqn:E; [|reflexivity].
    now apply strict_eqb_eq in E. }
  induction s as [|[t0 tm0] s IH]; simpl.
  - now rewrite Hf.
  - destruct (strict_eqb t0 t) eqn:Ht0; simpl.
    + apply strict_eqb_eq in Ht0 as ->. now rewrite Hf.
    + now rewrite IH.
Qed.

Lemma get_put_in (o : jsobject (jsobject V)) (category key : string) (v : V) :
  exists entry, get_prop (put_in o category key v) category = Some entry
                /\ get_prop entry key = Some v.
Proof.
  unfold put_in. eexists. split; apply get_set_same.
Qed.

End StoreFacts.

Lemma middleware_of_put_in (o : jsobject (jsobject (list jsval))) (category : string)
    (v : list jsval) :
  middleware_of (put_in o category "middleware" v) category = v.
Proof.
  unfold middleware_of. destruct (get_put_in o category "middleware" v)
    as (entry & -> & ->). reflexivity.
Qed.

(** X8. A class-level [@before] on a class, and a method-level [@before]
    on a method of its prototype, are what [metadata] of a record registered
    with that class shows under ["@before"] / ["middleware"], whatever the
    store held before and whether the record was created before or after
    the decoration. *)
Theorem decoration_shown_by_metadata (names : list string) (c : nat) (m : Meta)
    (s : Store (list jsval)) :
  names <> [] ->
  class m = Ctor c ->
  let rest := map VString names in
  middleware_of
    (class_level (metadata m (snd (decorate rest (Ctor c) None s)))) "@before"
  = rest
  /\ forall meth,
       middleware_of
         (default []
            (get_prop
               (method_level (metadata m (snd (decorate rest (Proto c) (Some meth) s))))
               meth)) "@before"
       = rest.
Proof.
  intros Hne Hclass rest. unfold metadata, getMeta. rewrite Hclass. simpl.
  assert (Hstr : forall r, r ∈ rest -> typeof r = "string").
  { intros r Hr. apply list_elem_of_In, in_map_iff in Hr as (x & <- & _).
    reflexivity. }
  assert (Hrest : rest <> []) by (subst rest; now destruct names).
  split.
  - destruct (decorate_outcome rest (Ctor c) None s)
      as [[(r & Hin & Hty) _]|[[Hnil _]|(_ & _ & ->)]].
    + now specialize (Hstr r Hin).
    + contradiction.
    + simpl. unfold putClassMeta. rewrite lookup_write_same. simpl.
      apply middleware_of_put_in.
  - intros meth.
    destruct (decorate_outcome rest (Proto c) (Some meth) s)
      as [[(r & Hin & Hty) _]|[[Hnil _]|(_ & _ & ->)]].
    + now specialize (Hstr r Hin).
    + contradiction.
    + simpl. unfold putMethodMeta. rewrite lookup_write_same. simpl.
      rewrite get_set_same. simpl. apply middleware_of_put_in.
Qed.

Lemma decoration_shown_by_metadata_witness :
  let m := new_Meta "/foo.js" (Ctor 4) 1000 in
  middleware_of
    (class_level (metadata m (snd (decorate [VString "auth"] (Ctor 4) None []))))
    "@before"
  = [VString "auth"].
Proof.
  intros m.
  apply (decoration_shown_by_metadata ["auth"] 4 m []); [discriminate | reflexivity].
Defined.

(** X9. [metadata] of a record registered with class [c] changes only
    through a class-level application to [c] itself or a method-level
    application to [c]'s prototype.  Any other application leaves it as it
    was: to another class or prototype, and also a method-level application
    whose target is the class [c] itself rather than its prototype. *)
Theorem other_decoration_not_shown (rest : list jsval) (target : objref)
    (key : option string) (c : nat) (m : Meta) (s : Store (list jsval)) :
  class m = Ctor c ->
  match key with
  | None => target <> Ctor c
  | Some _ => target <> Proto c
  end ->
  metadata m (snd (decorate rest target key s)) = metadata m s.
Proof.
  intros Hclass Hother. unfold metadata, getMeta. rewrite Hclass. simpl.
  destruct (decorate_outcome rest target key s)
    as [[_ ->]|[[_ ->]|(_ & _ & ->)]]; [reflexivity | reflexivity |].
  simpl. destruct key as [meth|].
  - unfold putMethodMeta. apply lookup_write_other. congruence.
  - unfold putClassMeta. apply lookup_write_other.
    destruct target as [c'|c'|n]; simpl; congruence.
Qed.

Lemma other_decoration_not_shown_witness :
  let m := new_Meta "/foo.js" (Ctor 4) 1000 in
  let s := putClassMeta (VObj (Proto 4)) "@before" "middleware" [VString "log"] [] in
  metadata m (snd (decorate [VString "auth"] (Ctor 4) (Some "create") s))
  = metadata m s.
Proof.
  intros m s.
  apply (other_decoration_not_shown [VString "auth"] (Ctor 4) (Some "create") 4 m s).
  - reflexivity.
  - discriminate.
Defined.
